(** * Simple Messenger (app.py): the message store and the conversation queries

    A shallow embedding of the database helpers of [app.py] (the [messages]
    table, [add_message], [get_conversations_for_user], [get_messages]) and of
    the two button handlers and the message form that write to the table,
    together with the properties the specification states about them and
    further properties read off the code.

    Conventions.
    - A Python [str] / SQLite [TEXT] value is a [string]: the bytes of its UTF-8
      encoding.  SQLite compares [TEXT] with the BINARY collation (bytewise) and
      Python compares [str] by code point; on UTF-8 the two orders coincide, so
      [String.eqb] and [String.leb] stand for both.
    - The [id] column is [INTEGER PRIMARY KEY AUTOINCREMENT]: an integer ([Z])
      chosen by SQLite, one more than the largest id the table has ever held.
    - [datetime.utcnow().isoformat()] reads the clock: the reading is an
      argument ([now]) of whatever calls [add_message].
    - Failures of the storage engine itself (I/O errors, locks, a full disk or
      an exhausted id space) are outside the model: every statement runs to
      completion, as it does in a run in which sqlite3 raises nothing. *)

From Stdlib Require Import List String Ascii ZArith Lia Bool.
From Stdlib Require Import Permutation Sorted Orders Mergesort OrderedTypeEx.
Import ListNotations.

#[local] Open Scope string_scope.
#[local] Open Scope list_scope.
#[local] Open Scope Z_scope.

(* ------------------------------------------------------------------ *)
(** ** The [messages] table (app.py, lines 19-29) *)

(** One row of [messages]; the fields are the columns of the
    [CREATE TABLE] statement. *)
Record Row : Type := mkRow {
  id : Z;
  sender : string;
  receiver : string;
  content : string;
  ts : string
}.

(** The database file [messages.db]: the rows of [messages] in storage order
    and the counter SQLite keeps for an AUTOINCREMENT column (the largest id
    ever assigned, table [sqlite_sequence]). *)
Record Db : Type := mkDb {
  messages : list Row;
  sqlite_sequence : Z
}.

(** What a Python call or a handler of the page script evaluates to. *)
Inductive pyval : Type :=
  | PyNone
  | PyInt (n : Z)
  | PyRow (r : Row).

(** [ValidationError] and [StorageError] are the specification's two error
    classes; no statement of app.py raises either.  [AttributeError] is what
    Python raises when a module is asked for a name it does not have. *)
Inductive exn : Type :=
  | ValidationError
  | StorageError
  | AttributeError.

(** How a piece of the script ends: it falls through with a value, it calls
    [st.experimental_rerun()], it calls [st.stop()], or it raises. *)
Inductive outcome : Type :=
  | Normal (v : pyval)
  | Rerun
  | Stop
  | Raised (e : exn).

(* ------------------------------------------------------------------ *)
(** ** Orders used by [ORDER BY id ASC] and by [list.sort()] *)

Lemma id_leb_total (a b : Row) :
  (id a <=? id b) = true \/ (id b <=? id a) = true.
Proof. rewrite !Z.leb_le; lia. Qed.

Module IdOrder <: TotalLeBool.
Definition t := Row.
Definition leb (a b : Row) : bool := id a <=? id b.
Definition leb_total := id_leb_total.
End IdOrder.

Module StrOrder <: TotalLeBool.
Definition t := string.
Definition leb : string -> string -> bool := String.leb.
Definition leb_total := String.leb_total.
End StrOrder.

Module RowSort := Sort IdOrder.
Module StrSort := Sort StrOrder.

(* ------------------------------------------------------------------ *)
(** ** The SQL statements app.py executes *)

Module Sql.

(** Largest id among the rows present (0 for an empty table). *)
Definition max_rowid (t : list Row) : Z :=
  fold_right (fun r acc => Z.max (id r) acc) 0 t.

(** The id an AUTOINCREMENT insert picks: one more than the largest id that
    has ever been in the table. *)
Definition next_rowid (d : Db) : Z :=
  Z.max (sqlite_sequence d) (max_rowid (messages d)) + 1.

(** [INSERT INTO messages (sender, receiver, content, ts) VALUES (?, ?, ?, ?)]:
    the row written, and the database afterwards. *)
Definition inserted (p1 p2 p3 p4 : string) (d : Db) : Row :=
  mkRow (next_rowid d) p1 p2 p3 p4.

Definition insert (p1 p2 p3 p4 : string) (d : Db) : Db :=
  let r := inserted p1 p2 p3 p4 d in
  mkDb (messages d ++ [r]) (id r).

(** [WHERE (sender = ? AND receiver = ?) OR (sender = ? AND receiver = ?)] *)
Definition where_between (p1 p2 p3 p4 : string) (r : Row) : bool :=
  ((sender r =? p1)%string && (receiver r =? p2)%string)
  || ((sender r =? p3)%string && (receiver r =? p4)%string).

(** [WHERE sender = ? OR receiver = ?] (second and third parameter of the
    contacts query). *)
Definition where_involves (p2 p3 : string) (r : Row) : bool :=
  (sender r =? p2)%string || (receiver r =? p3)%string.

(** [CASE WHEN sender = ? THEN receiver ELSE sender END] (first parameter of
    the contacts query). *)
Definition case_contact (p1 : string) (r : Row) : string :=
  if (sender r =? p1)%string then receiver r else sender r.

(** [SELECT DISTINCT]: a value is emitted the first time it is seen. *)
Fixpoint distinct_from (seen : list string) (l : list string) : list string :=
  match l with
  | [] => []
  | x :: l' =>
      if existsb (String.eqb x) seen then distinct_from seen l'
      else x :: distinct_from (x :: seen) l'
  end.

Definition distinct (l : list string) : list string := distinct_from [] l.

(** [SELECT * FROM messages WHERE ... ORDER BY id ASC] *)
Definition select_between (p1 p2 p3 p4 : string) (d : Db) : list Row :=
  RowSort.sort (filter (where_between p1 p2 p3 p4) (messages d)).

(** [SELECT DISTINCT CASE ... END as contact FROM messages WHERE ...] *)
Definition select_contacts (p1 p2 p3 : string) (d : Db) : list string :=
  distinct (map (case_contact p1) (filter (where_involves p2 p3) (messages d))).

(** [DELETE FROM messages WHERE ...]: the cursor's [rowcount] and the table
    afterwards.  [sqlite_sequence] is not touched, so ids are not reused. *)
Definition delete_between (p1 p2 p3 p4 : string) (d : Db) : Z * Db :=
  (Z.of_nat (List.length (filter (where_between p1 p2 p3 p4) (messages d))),
   mkDb (filter (fun r => negb (where_between p1 p2 p3 p4 r)) (messages d))
        (sqlite_sequence d)).

End Sql.

(* ------------------------------------------------------------------ *)
(** ** The database helpers of app.py *)

(** A database file in which [messages] has just been created. *)
Definition empty_db : Db := mkDb [] 0.

(** [init_db] (lines 16-30): [CREATE TABLE IF NOT EXISTS]; [None] is a
    database file without the table. *)
Definition init_db (f : option Db) : Db :=
  match f with
  | Some d => d
  | None => empty_db
  end.

(** [add_message] (lines 32-39).  The function has no [return] statement. *)
Definition add_message (sender receiver content now : string) (d : Db)
  : outcome * Db :=
  (Normal PyNone, Sql.insert sender receiver content now d).

(** [get_conversations_for_user] (lines 41-58). *)
Definition get_conversations_for_user (username : string) (d : Db) : list string :=
  let rows := Sql.select_contacts username username username d in
  let contacts := rows in
  StrSort.sort contacts.

(** [get_messages] (lines 60-71). *)
Definition get_messages (user_a user_b : string) (d : Db) : list Row :=
  Sql.select_between user_a user_b user_b user_a d.

(* ------------------------------------------------------------------ *)
(** ** The handlers of the page script that write to the table *)

(** Content of the placeholder message (line 91). *)
Definition started_conversation : string := "[Started conversation]".

(** "Add / Open chat" pressed (lines 82-92).  [username] and [new_contact] are
    the values of the two sidebar text inputs. *)
Definition add_open_chat (username new_contact now : string) (d : Db)
  : outcome * Db :=
  if (username =? "")%string then (Stop, d)
  else if negb (new_contact =? "")%string && negb (new_contact =? username)%string
  then
    let '(_, d1) := add_message username new_contact started_conversation now d in
    (Rerun, d1)
  else (Normal PyNone, d).

(** One turn of the loop that draws the thread (lines 111-139).  In either
    branch the first expression of the f-string is [st._cc.escape_html(...)]
    (line 121, line 133); the [streamlit] module has no attribute [_cc], so the
    lookup raises before anything is drawn. *)
Definition draw_message (username : string) (m : Row) : outcome :=
  if (sender m =? username)%string then Raised AttributeError
  else Raised AttributeError.

(** [for m in messages: ...] (lines 111-139): the loop ends at the first turn
    that does not complete. *)
Fixpoint draw_thread (username : string) (messages : list Row) : outcome :=
  match messages with
  | [] => Normal PyNone
  | m :: rest =>
      match draw_message username m with
      | Normal _ => draw_thread username rest
      | o => o
      end
  end.

(** "Delete conversation" pressed, and nothing else (lines 82-84, 95, 102-139,
    151-172).  [contacts] is the list computed on line 95 in the same run;
    [contact] is the entry of the "Chats" radio that is selected.  The thread
    is drawn before the handler is reached. *)
Definition delete_conversation (username contact : string) (d : Db)
  : outcome * Db :=
  if (username =? "")%string then (Stop, d)
  else
    let contacts := get_conversations_for_user username d in
    match contacts with
    | [] => (Normal PyNone, d)
    | _ :: _ =>
        let messages := get_messages username contact d in
        match draw_thread username messages with
        | Normal _ =>
            let '(_, d1) :=
              Sql.delete_between username contact contact username d in
            (Rerun, d1)
        | o => (o, d)
        end
    end.

(* ------------------------------------------------------------------ *)
(** ** Histories: sequences of writes starting from a fresh database *)

Inductive write : Type :=
  | Append (sender receiver content now : string)
  | DeleteBetween (user_a user_b : string).

Definition step (d : Db) (w : write) : Db :=
  match w with
  | Append s r c now => snd (add_message s r c now d)
  | DeleteBetween a b => snd (Sql.delete_between a b b a d)
  end.

Definition run (d : Db) (h : list write) : Db := fold_left step h d.

(** The rows the [Append]s of a history wrote, oldest first, whether or not
    they were deleted later. *)
Fixpoint appended (d : Db) (h : list write) : list Row :=
  match h with
  | [] => []
  | w :: h' =>
      match w with
      | Append s r c now => Sql.inserted s r c now d :: appended (step d w) h'
      | DeleteBetween _ _ => appended (step d w) h'
      end
  end.

(* ------------------------------------------------------------------ *)
(** ** The store of the specification's scenario *)

(** alice writes "hi" to bob, bob answers "hello", on a fresh database. *)
Definition db_alice_bob : Db :=
  run (init_db None)
      [Append "alice" "bob" "hi" "2024-01-01T10:00:00";
       Append "bob" "alice" "hello" "2024-01-01T10:00:05"].

(* ------------------------------------------------------------------ *)
(** ** The conversation of an unordered pair, as the specification words it *)

(** [m] belongs to the conversation of [a] and [b]: its (sender, receiver) is
    [(a, b)] or [(b, a)]. *)
Definition between (a b : string) (m : Row) : Prop :=
  (sender m = a /\ receiver m = b) \/ (sender m = b /\ receiver m = a).

(** [c] is the other party of [m] for user [u]. *)
Definition other_party (u c : string) (m : Row) : Prop :=
  (sender m = u /\ receiver m = c) \/ (sender m = c /\ receiver m = u).

Definition between_dec (a b : string) (m : Row) :
  {between a b m} + {~ between a b m}.
Proof.
  unfold between.
  destruct (string_dec (sender m) a), (string_dec (receiver m) b),
           (string_dec (sender m) b), (string_dec (receiver m) a);
    solve [left; tauto | right; tauto].
Defined.

(** Number of messages of the conversation of [a] and [b] in a table. *)
Definition count_between (a b : string) (t : list Row) : Z :=
  Z.of_nat (List.length (filter (fun m => if between_dec a b m then true else false) t)).

(** Ascending by [id]. *)
Definition id_le (x y : Row) : Prop := id x <= id y.

(** Strictly ascending in the lexicographic order of strings. *)
Definition str_lt (x y : string) : Prop := String.ltb x y = true.

(* ------------------------------------------------------------------ *)
(** ** The message form, and what the page can do to the store *)

(** Strictly ascending by [id]. *)
Definition id_lt (x y : Row) : Prop := id x < id y.

(** The shape [INTEGER PRIMARY KEY AUTOINCREMENT] gives the table: rows stored
    in strictly ascending order of id (so ids are unique), every id at least 1
    and at most the counter. *)
Definition well_keyed (d : Db) : Prop :=
  0 <= sqlite_sequence d
  /\ StronglySorted id_lt (messages d)
  /\ Forall (fun r => 1 <= id r <= sqlite_sequence d) (messages d).

(** A row as the page writes them: no empty sender, receiver or content, and
    nobody writing to themselves. *)
Definition clean_row (r : Row) : Prop :=
  sender r <> "" /\ receiver r <> "" /\ content r <> "" /\ sender r <> receiver r.

Definition clean (d : Db) : Prop := Forall clean_row (messages d).

Section Page.

(** Python's [str.strip], which app.py applies to the text of the message
    box. *)
Variable strip : string -> string.

(** The message form, and no button pressed (lines 82-84, 95, 102-149).
    [contact] is the entry of the "Chats" radio that is selected, [msg] the
    text area, [send] whether the form was submitted.  The thread is drawn
    before the form is reached. *)
Definition send_form (username contact msg : string) (send : bool)
  (now : string) (d : Db) : outcome * Db :=
  if (username =? "")%string then (Stop, d)
  else
    let contacts := get_conversations_for_user username d in
    match contacts with
    | [] => (Normal PyNone, d)
    | _ :: _ =>
        let messages := get_messages username contact d in
        match draw_thread username messages with
        | Normal _ =>
            if send && negb (strip msg =? "")%string then
              let '(_, d1) := add_message username contact (strip msg) now d in
              (Rerun, d1)
            else (Normal PyNone, d)
        | o => (o, d)
        end
    end.

(** The stores the page can produce from a fresh database.  The radio offers
    the entries of [contacts], so the contact of a sent message is one of
    them. *)
Inductive page_reachable : Db -> Prop :=
  | reach_fresh : page_reachable (init_db None)
  | reach_add_open_chat username new_contact now d :
      page_reachable d ->
      page_reachable (snd (add_open_chat username new_contact now d))
  | reach_send_form username contact msg send now d :
      page_reachable d ->
      In contact (get_conversations_for_user username d) ->
      page_reachable (snd (send_form username contact msg send now d))
  | reach_delete_conversation username contact d :
      page_reachable d ->
      page_reachable (snd (delete_conversation username contact d)).

End Page.

(* ------------------------------------------------------------------ *)
(** ** The scenario of the specification, run on the model *)

Example scenario_thread :
  get_messages "alice" "bob" db_alice_bob
  = [mkRow 1 "alice" "bob" "hi" "2024-01-01T10:00:00";
     mkRow 2 "bob" "alice" "hello" "2024-01-01T10:00:05"].
Proof. reflexivity. Qed.

Example scenario_contacts :
  get_conversations_for_user "alice" db_alice_bob = ["bob"].
Proof. reflexivity. Qed.

(** The DELETE statement removes the two messages; the page does not get as
    far as the statement. *)
Example scenario_delete :
  fst (Sql.delete_between "alice" "bob" "bob" "alice" db_alice_bob) = 2
  /\ get_messages "alice" "bob"
       (snd (Sql.delete_between "alice" "bob" "bob" "alice" db_alice_bob)) = []
  /\ delete_conversation "alice" "bob" db_alice_bob
     = (Raised AttributeError, db_alice_bob).
Proof. repeat split; reflexivity. Qed.

(** Ids are not reused: after the conversation is deleted the next message
    gets id 3. *)
Example scenario_id_after_delete :
  get_messages "alice" "bob"
    (run db_alice_bob
         [DeleteBetween "alice" "bob";
          Append "alice" "bob" "again" "2024-01-01T10:01:00"])
  = [mkRow 3 "alice" "bob" "again" "2024-01-01T10:01:00"].
Proof. reflexivity. Qed.

(* ------------------------------------------------------------------ *)
(** ** Facts about the two orders *)

Section Orders.

Lemma where_between_spec p1 p2 p3 p4 m :
  Sql.where_between p1 p2 p3 p4 m = true <->
  (sender m = p1 /\ receiver m = p2) \/ (sender m = p3 /\ receiver m = p4).
Proof.
  unfold Sql.where_between.
  rewrite orb_true_iff, !andb_true_iff, !String.eqb_eq. tauto.
Qed.

Lemma where_between_iff a b m :
  Sql.where_between a b b a m = true <-> between a b m.
Proof. apply where_between_spec. Qed.

Lemma where_involves_spec u m :
  Sql.where_involves u u m = true <-> sender m = u \/ receiver m = u.
Proof.
  unfold Sql.where_involves. rewrite orb_true_iff, !String.eqb_eq. tauto.
Qed.

Lemma id_leb_trans : Transitive (fun a b => is_true (IdOrder.leb a b)).
Proof.
  intros x y z; unfold is_true, IdOrder.leb; rewrite !Z.leb_le; lia.
Qed.

Lemma str_leb_cases a b :
  String.leb a b = true <-> a = b \/ String_as_OT.lt a b.
Proof.
  unfold String.leb.
  rewrite <- String_as_OT.cmp_lt, <- String_as_OT.cmp_eq.
  unfold String_as_OT.cmp.
  destruct (String.compare a b); split; intros H;
    try reflexivity; try discriminate; auto;
    destruct H; discriminate.
Qed.

Lemma str_leb_trans : Transitive (fun a b => is_true (StrOrder.leb a b)).
Proof.
  intros x y z; unfold is_true, StrOrder.leb.
  rewrite !str_leb_cases.
  intros [-> | Hxy] [-> | Hyz]; auto.
  right; eapply String_as_OT.lt_trans; eauto.
Qed.

Lemma str_leb_neq_ltb a b :
  String.leb a b = true -> a <> b -> String.ltb a b = true.
Proof.
  unfold String.leb, String.ltb; intros Hle Hne.
  destruct (String.compare a b) eqn:E; try reflexivity; try discriminate.
  apply String.compare_eq_iff in E; contradiction.
Qed.

End Orders.

(* ------------------------------------------------------------------ *)
(** ** Facts about sorted lists *)

Section SortedLists.

Context {A : Type} (R : A -> A -> Prop).

Lemma StronglySorted_snoc_inv (l : list A) (x : A) :
  StronglySorted R (l ++ [x]) -> Forall (fun y => R y x) l.
Proof.
  induction l as [| a l IH]; simpl; intros H.
  - constructor.
  - apply StronglySorted_inv in H as [Hs Ha].
    constructor.
    + rewrite Forall_forall in Ha; apply Ha, in_or_app; right; left; reflexivity.
    + apply IH, Hs.
Qed.

Lemma StronglySorted_strict (neq_R : A -> A -> Prop) (l : list A) :
  (forall x y, R x y -> x <> y -> neq_R x y) ->
  StronglySorted R l -> NoDup l -> StronglySorted neq_R l.
Proof.
  intros Hstrict Hs; induction Hs as [| a l Hs IH Ha]; intros Hnd.
  - constructor.
  - inversion Hnd as [| ? ? Hnotin Hnd']; subst.
    constructor; [apply IH, Hnd' |].
    rewrite Forall_forall in *; intros y Hy.
    apply Hstrict; [apply Ha, Hy |].
    intros ->; contradiction.
Qed.

End SortedLists.

(* ------------------------------------------------------------------ *)
(** ** [SELECT DISTINCT] *)

Section Distinct.

Lemma existsb_eqb_In x seen :
  existsb (String.eqb x) seen = true <-> In x seen.
Proof.
  rewrite existsb_exists; split.
  - intros [y [Hy E]]; apply String.eqb_eq in E; subst; assumption.
  - intros H; exists x; split; [assumption | apply String.eqb_refl].
Qed.

Lemma distinct_from_In seen l x :
  In x (Sql.distinct_from seen l) <-> In x l /\ ~ In x seen.
Proof.
  revert seen; induction l as [| a l IH]; intros seen; simpl.
  - tauto.
  - destruct (existsb (String.eqb a) seen) eqn:E.
    + apply existsb_eqb_In in E. rewrite IH.
      split; [tauto |]. intros [[-> | H] Hn]; tauto.
    + assert (Ha : ~ In a seen)
        by (rewrite <- existsb_eqb_In, E; discriminate).
      simpl; rewrite IH; simpl.
      destruct (string_dec a x) as [-> | Hne]; [tauto |].
      split; [intros [? | [? ?]]; tauto | intros [[? | ?] ?]; tauto].
Qed.

Lemma distinct_from_NoDup seen l : NoDup (Sql.distinct_from seen l).
Proof.
  revert seen; induction l as [| a l IH]; intros seen; simpl.
  - constructor.
  - destruct (existsb (String.eqb a) seen); [apply IH |].
    constructor; [| apply IH].
    rewrite distinct_from_In; simpl; tauto.
Qed.

Lemma distinct_In l x : In x (Sql.distinct l) <-> In x l.
Proof. unfold Sql.distinct; rewrite distinct_from_In; simpl; tauto. Qed.

End Distinct.

(* ------------------------------------------------------------------ *)
(** ** [get_messages] *)

Section Threads.

Lemma StronglySorted_weaken {A : Type} (R R' : A -> A -> Prop) (l : list A) :
  (forall x y, R x y -> R' x y) -> StronglySorted R l -> StronglySorted R' l.
Proof.
  intros Himp Hs; induction Hs as [| a l Hs IH Ha]; constructor; auto.
  eapply Forall_impl; [| exact Ha]; auto.
Qed.

Lemma get_messages_Permutation a b d :
  Permutation (filter (Sql.where_between a b b a) (messages d)) (get_messages a b d).
Proof. apply RowSort.Permuted_sort. Qed.

Lemma get_messages_sorted a b d : StronglySorted id_le (get_messages a b d).
Proof.
  unfold get_messages, Sql.select_between.
  eapply StronglySorted_weaken;
    [| apply RowSort.StronglySorted_sort, id_leb_trans].
  intros x y H; unfold id_le; apply Z.leb_le; exact H.
Qed.

Lemma get_messages_In a b d m :
  In m (get_messages a b d) <-> In m (messages d) /\ between a b m.
Proof.
  rewrite <- where_between_iff, <- filter_In.
  split; apply Permutation_in;
    [apply Permutation_sym |]; apply get_messages_Permutation.
Qed.

Lemma filter_split {A : Type} (f : A -> bool) (l : list A) :
  Permutation l (filter f l ++ filter (fun x => negb (f x)) l).
Proof.
  induction l as [| a l IH]; simpl; [constructor |].
  destruct (f a); simpl.
  - constructor; exact IH.
  - eapply Permutation_trans; [constructor; exact IH |].
    apply Permutation_middle.
Qed.

Lemma filter_nothing {A : Type} (f : A -> bool) (l : list A) :
  (forall x, In x l -> f x = false) -> filter f l = [].
Proof.
  induction l as [| a l IH]; simpl; intros H; [reflexivity |].
  rewrite (H a) by (left; reflexivity). apply IH; intros; apply H; right; assumption.
Qed.

Lemma filter_everything {A : Type} (f : A -> bool) (l : list A) :
  (forall x, In x l -> f x = true) -> filter f l = l.
Proof.
  induction l as [| a l IH]; simpl; intros H; [reflexivity |].
  rewrite (H a) by (left; reflexivity).
  f_equal; apply IH; intros; apply H; right; assumption.
Qed.

Lemma where_between_false a b m :
  ~ between a b m -> Sql.where_between a b b a m = false.
Proof.
  intros H; destruct (Sql.where_between a b b a m) eqn:E; [| reflexivity].
  apply where_between_iff in E; contradiction.
Qed.

End Threads.

(** C4.  For every store state and users [a], [b], [get_messages a b] and
    [get_messages b a] are the same sequence. *)
Theorem get_messages_symmetric (d : Db) (a b : string) :
  get_messages a b d = get_messages b a d.
Proof.
  unfold get_messages, Sql.select_between; f_equal.
  apply filter_ext; intros m; unfold Sql.where_between; apply orb_comm.
Qed.

(** C5.  For every store state and users [a], [b], [get_messages a b] holds
    exactly the messages whose (sender, receiver) is [(a, b)] or [(b, a)]
    (each as often as the table holds it, the rest of the table being the
    messages of other pairs), in ascending order of [id]; when the table has
    no such message the result is the empty list. *)
Theorem get_messages_exact (d : Db) (a b : string) :
  (forall m, In m (get_messages a b d) <-> In m (messages d) /\ between a b m)
  /\ (exists others,
        Permutation (messages d) (get_messages a b d ++ others)
        /\ Forall (fun m => ~ between a b m) others)
  /\ StronglySorted id_le (get_messages a b d)
  /\ ((forall m, In m (messages d) -> ~ between a b m) -> get_messages a b d = []).
Proof.
  split; [intros m; apply get_messages_In |].
  split; [| split; [apply get_messages_sorted |]].
  - exists (filter (fun m => negb (Sql.where_between a b b a m)) (messages d)).
    split.
    + eapply Permutation_trans; [apply filter_split |].
      apply Permutation_app_tail, get_messages_Permutation.
    + rewrite Forall_forall; intros m Hm.
      apply filter_In in Hm as [_ Hm].
      rewrite <- where_between_iff; destruct (Sql.where_between a b b a m);
        [discriminate | discriminate].
  - intros Hnone; unfold get_messages, Sql.select_between.
    rewrite filter_nothing; [reflexivity |].
    intros m Hm; apply where_between_false, Hnone, Hm.
Qed.

(** C5 on a table whose only message belongs to another pair: the thread of
    alice and bob is empty. *)
Lemma get_messages_exact_witness :
  get_messages "alice" "bob"
    (mkDb [mkRow 1 "alice" "carol" "hi" "2024-01-01T10:00:00"] 1) = [].
Proof.
  apply (get_messages_exact
           (mkDb [mkRow 1 "alice" "carol" "hi" "2024-01-01T10:00:00"] 1)
           "alice" "bob").
  intros m [<- | []] [[_ H] | [H _]]; discriminate H.
Defined.

(* ------------------------------------------------------------------ *)
(** ** [get_conversations_for_user] *)

Section Contacts.

Lemma case_contact_other_party u c m :
  (sender m = u \/ receiver m = u) /\ Sql.case_contact u m = c
  <-> other_party u c m.
Proof.
  unfold Sql.case_contact, other_party.
  destruct (String.eqb_spec (sender m) u) as [E | E].
  - split.
    + intros [_ H]; left; split; assumption.
    + intros [[_ H] | [H1 H2]]; split; auto; congruence.
  - split.
    + intros [[H | H] H']; [contradiction | right; split; assumption].
    + intros [[H _] | [H1 H2]]; [contradiction | split; auto].
Qed.

Lemma select_contacts_In u c d :
  In c (Sql.select_contacts u u u d)
  <-> exists m, In m (messages d) /\ other_party u c m.
Proof.
  unfold Sql.select_contacts.
  rewrite distinct_In, in_map_iff.
  split.
  - intros [m [Hc Hm]]; apply filter_In in Hm as [Hm Hw].
    apply where_involves_spec in Hw.
    exists m; split; [assumption |].
    apply case_contact_other_party; split; assumption.
  - intros [m [Hm Ho]]; apply case_contact_other_party in Ho as [Hw Hc].
    exists m; split; [assumption |].
    apply filter_In; split; [assumption |].
    apply where_involves_spec; assumption.
Qed.

Lemma contacts_Permutation u d :
  Permutation (Sql.select_contacts u u u d) (get_conversations_for_user u d).
Proof. apply StrSort.Permuted_sort. Qed.

Lemma contacts_In u c d :
  In c (get_conversations_for_user u d)
  <-> exists m, In m (messages d) /\ other_party u c m.
Proof.
  rewrite <- select_contacts_In.
  split; apply Permutation_in;
    [apply Permutation_sym |]; apply contacts_Permutation.
Qed.

Lemma contacts_NoDup u d : NoDup (get_conversations_for_user u d).
Proof.
  eapply Permutation_NoDup; [apply contacts_Permutation |].
  apply distinct_from_NoDup.
Qed.

End Contacts.

(** C6.  For every store state and user [u], [get_conversations_for_user u]
    holds exactly the other parties of the messages that [u] sent or received,
    in strictly ascending lexicographic order (hence without duplicates), and
    is empty when no message involves [u]. *)
Theorem contacts_exact (d : Db) (u : string) :
  (forall c, In c (get_conversations_for_user u d)
             <-> exists m, In m (messages d) /\ other_party u c m)
  /\ StronglySorted str_lt (get_conversations_for_user u d)
  /\ NoDup (get_conversations_for_user u d)
  /\ ((forall m, In m (messages d) -> sender m <> u /\ receiver m <> u) ->
      get_conversations_for_user u d = []).
Proof.
  split; [intros c; apply contacts_In |].
  split; [| split; [apply contacts_NoDup |]].
  - apply StronglySorted_strict with (R := fun a b => is_true (StrOrder.leb a b)).
    + intros x y; apply str_leb_neq_ltb.
    + apply StrSort.StronglySorted_sort, str_leb_trans.
    + apply contacts_NoDup.
  - intros Hnone.
    unfold get_conversations_for_user, Sql.select_contacts.
    rewrite filter_nothing; [reflexivity |].
    intros m Hm; destruct (Hnone m Hm) as [Hs Hr].
    unfold Sql.where_involves.
    apply String.eqb_neq in Hs, Hr; rewrite Hs, Hr; reflexivity.
Qed.

(** C6 on a table in which no message involves the user. *)
Lemma contacts_exact_witness :
  get_conversations_for_user "dave"
    (mkDb [mkRow 1 "alice" "carol" "hi" "2024-01-01T10:00:00"] 1) = [].
Proof.
  apply (contacts_exact
           (mkDb [mkRow 1 "alice" "carol" "hi" "2024-01-01T10:00:00"] 1) "dave").
  intros m [<- | []]; split; discriminate.
Defined.

(** The example of the specification: after [A -> B], [C -> A], [A -> D] the
    contacts of [A] are [B], [C], [D]. *)
Example contacts_of_A :
  get_conversations_for_user "A"
    (run (init_db None)
         [Append "A" "B" "x" "t1"; Append "C" "A" "y" "t2"; Append "A" "D" "z" "t3";
          Append "D" "A" "w" "t4"])
  = ["B"; "C"; "D"].
Proof. reflexivity. Qed.

(** C10.  If the table holds a message that [u] sent to [u], then [u] is one
    of the contacts [get_conversations_for_user u] returns. *)
Theorem self_message_self_contact (d : Db) (u : string) (m : Row) :
  In m (messages d) -> sender m = u -> receiver m = u ->
  In u (get_conversations_for_user u d).
Proof.
  intros Hm Hs Hr; apply contacts_In.
  exists m; split; [assumption | left; split; assumption].
Qed.

Lemma self_message_self_contact_witness :
  In "alice"
     (get_conversations_for_user "alice"
        (snd (add_message "alice" "alice" "note to self" "2024-01-01T10:00:00"
                empty_db))).
Proof.
  apply (self_message_self_contact _ "alice"
           (mkRow 1 "alice" "alice" "note to self" "2024-01-01T10:00:00"));
    [left; reflexivity | reflexivity | reflexivity].
Defined.

(* ------------------------------------------------------------------ *)
(** ** [add_message] and the ids it assigns *)

Section Store.

Lemma max_rowid_ge (t : list Row) (r : Row) :
  In r t -> id r <= Sql.max_rowid t.
Proof.
  induction t as [| a t IH]; simpl; [tauto |].
  intros [-> | H]; [lia |]. specialize (IH H); lia.
Qed.

Lemma next_rowid_fresh (d : Db) (r : Row) :
  In r (messages d) -> id r < Sql.next_rowid d.
Proof.
  intros H; apply max_rowid_ge in H; unfold Sql.next_rowid; lia.
Qed.

Lemma next_rowid_above_sequence (d : Db) :
  sqlite_sequence d < Sql.next_rowid d.
Proof. unfold Sql.next_rowid; lia. Qed.

Lemma step_sequence_mono (d : Db) (w : write) :
  sqlite_sequence d <= sqlite_sequence (step d w).
Proof.
  destruct w; simpl; [| lia].
  pose proof (next_rowid_above_sequence d); lia.
Qed.

Lemma run_sequence_mono (h : list write) (d : Db) :
  sqlite_sequence d <= sqlite_sequence (run d h).
Proof.
  revert d; induction h as [| w h IH]; intros d; [simpl; lia |].
  change (run d (w :: h)) with (run (step d w) h).
  pose proof (step_sequence_mono d w). specialize (IH (step d w)). lia.
Qed.

(** Every id a history has assigned is at most the counter it leaves. *)
Lemma appended_bounded (h : list write) (d : Db) :
  Forall (fun r => id r <= sqlite_sequence (run d h)) (appended d h).
Proof.
  revert d; induction h as [| w h IH]; intros d; [constructor |].
  change (run d (w :: h)) with (run (step d w) h).
  destruct w as [s r c now | a b]; cbn [appended]; [| apply IH].
  constructor; [| apply IH].
  exact (run_sequence_mono h (step d (Append s r c now))).
Qed.

(** In a list sorted by id, an element above all the others comes last. *)
Lemma sorted_greatest_last (f l : list Row) (m : Row) :
  Permutation (f ++ [m]) l -> StronglySorted id_le l ->
  (forall x, In x f -> id x < id m) ->
  exists l', l = l' ++ [m].
Proof.
  intros Hp Hs Hlt.
  assert (Hne : l <> []).
  { intros ->; apply Permutation_sym, Permutation_nil in Hp.
    destruct f; discriminate. }
  destruct (exists_last Hne) as [l' [x ->]].
  exists l'; f_equal; f_equal.
  apply StronglySorted_snoc_inv in Hs; rewrite Forall_forall in Hs.
  assert (Hx : In x (f ++ [m])).
  { eapply Permutation_in; [apply Permutation_sym, Hp |].
    apply in_or_app; right; left; reflexivity. }
  apply in_app_or in Hx as [Hx | [Hx | []]]; [| symmetry; exact Hx].
  specialize (Hlt x Hx).
  assert (Hm : In m (l' ++ [x])).
  { eapply Permutation_in; [exact Hp |].
    apply in_or_app; right; left; reflexivity. }
  apply in_app_or in Hm as [Hm | [Hm | []]].
  - specialize (Hs m Hm); unfold id_le in Hs; lia.
  - subst; lia.
Qed.

Lemma where_between_inserted s r c now d :
  Sql.where_between s r r s (Sql.inserted s r c now d) = true.
Proof.
  apply where_between_iff; left; split; reflexivity.
Qed.

(** After [add_message], the thread of sender and receiver ends with the new
    row. *)
Lemma get_messages_after_add s r c now d :
  exists thread,
    get_messages s r (snd (add_message s r c now d))
    = thread ++ [Sql.inserted s r c now d].
Proof.
  apply sorted_greatest_last
    with (f := filter (Sql.where_between s r r s) (messages d)).
  - eapply Permutation_trans; [| apply get_messages_Permutation].
    simpl; rewrite filter_app; simpl.
    rewrite where_between_inserted; apply Permutation_refl.
  - apply get_messages_sorted.
  - intros x Hx; apply filter_In in Hx as [Hx _].
    apply next_rowid_fresh, Hx.
Qed.

End Store.

(** C1 (amended).  [add_message] validates nothing and never raises: for every
    sender, receiver and content, empty or not, it completes normally and the
    table grows by exactly one row, which holds the three strings as given. *)
Theorem add_message_never_rejects (sender0 receiver0 content0 now : string) (d : Db) :
  (forall e, fst (add_message sender0 receiver0 content0 now d) <> Raised e)
  /\ exists m,
       messages (snd (add_message sender0 receiver0 content0 now d))
       = messages d ++ [m]
       /\ sender m = sender0 /\ receiver m = receiver0 /\ content m = content0.
Proof.
  split; [intros e; discriminate |].
  exists (Sql.inserted sender0 receiver0 content0 now d).
  repeat split; reflexivity.
Qed.

(** C1 as stated fails: with an empty sender [add_message] raises no
    [ValidationError] and inserts the message. *)
Lemma add_message_empty_sender_inserts :
  fst (add_message "" "bob" "hi" "2024-01-01T10:00:00" empty_db)
    <> Raised ValidationError
  /\ messages (snd (add_message "" "bob" "hi" "2024-01-01T10:00:00" empty_db))
     = [mkRow 1 "" "bob" "hi" "2024-01-01T10:00:00"].
Proof. split; [discriminate | reflexivity]. Qed.

(** C2 (amended).  For every sender, receiver and content, [add_message]
    persists one Message holding them, the clock reading taken at the call
    and an id chosen by the store (above the id of every row present and above
    every id assigned before), and returns nothing ([None]); the persisted
    Message, id and timestamp included, is what a later [get_messages] of the
    pair reads back. *)
Theorem add_message_persists (sender0 receiver0 content0 now : string) (d : Db) :
  exists m,
    add_message sender0 receiver0 content0 now d
    = (Normal PyNone, mkDb (messages d ++ [m]) (id m))
    /\ m = mkRow (Sql.next_rowid d) sender0 receiver0 content0 now
    /\ (forall old, In old (messages d) -> id old < id m)
    /\ sqlite_sequence d < id m
    /\ In m (get_messages sender0 receiver0
               (snd (add_message sender0 receiver0 content0 now d))).
Proof.
  exists (Sql.inserted sender0 receiver0 content0 now d).
  split; [reflexivity |]. split; [reflexivity |].
  split; [intros old; apply next_rowid_fresh |].
  split; [apply next_rowid_above_sequence |].
  destruct (get_messages_after_add sender0 receiver0 content0 now d) as [t ->].
  apply in_or_app; right; left; reflexivity.
Qed.

(** C2 as stated fails: what [add_message] returns is [None], not a Message. *)
Lemma add_message_returns_none :
  fst (add_message "alice" "bob" "hi" "2024-01-01T10:00:00" empty_db)
    = Normal PyNone
  /\ forall m,
       fst (add_message "alice" "bob" "hi" "2024-01-01T10:00:00" empty_db)
       <> Normal (PyRow m).
Proof. split; [reflexivity | intros m; discriminate]. Qed.

(** C3.  After any history of appends and conversation deletes on a fresh
    database, [add_message s r c] followed by [get_messages s r] yields a
    sequence whose last element has sender [s], receiver [r] and content [c],
    and whose id is strictly greater than the id of every message appended
    earlier, for any pair, deleted since or not. *)
Theorem append_then_fetch (h : list write) (s r c now : string) :
  exists thread m,
    get_messages s r (snd (add_message s r c now (run (init_db None) h)))
    = thread ++ [m]
    /\ sender m = s /\ receiver m = r /\ content m = c
    /\ Forall (fun old => id old < id m) (appended (init_db None) h).
Proof.
  destruct (get_messages_after_add s r c now (run (init_db None) h)) as [t Ht].
  exists t, (Sql.inserted s r c now (run (init_db None) h)).
  split; [exact Ht |]. repeat (split; [reflexivity |]).
  eapply Forall_impl; [| apply appended_bounded].
  intros old Hold.
  change (id old < Sql.next_rowid (run (init_db None) h)).
  pose proof (next_rowid_above_sequence (run (init_db None) h)).
  cbv beta in Hold; lia.
Qed.

(* ------------------------------------------------------------------ *)
(** ** The "Add / Open chat" handler *)

(** C9 (amended).  Starting a chat with oneself is silently ignored: it
    appends no message and raises no error.  For non-empty [a] and [b] with
    [a <> b], the handler appends exactly one message, sent by [a] to [b]
    with the conversation-start marker as content, after which [b] is among
    the contacts of [a]. *)
Theorem add_open_chat_effect (a b now : string) (d : Db) :
  (snd (add_open_chat a a now d) = d
   /\ forall e, fst (add_open_chat a a now d) <> Raised e)
  /\ (a <> "" -> b <> "" -> a <> b ->
      exists m,
        messages (snd (add_open_chat a b now d)) = messages d ++ [m]
        /\ sender m = a /\ receiver m = b /\ content m = started_conversation
        /\ In b (get_conversations_for_user a (snd (add_open_chat a b now d)))).
Proof.
  split.
  - unfold add_open_chat.
    destruct (a =? "")%string; [split; [reflexivity | discriminate] |].
    rewrite String.eqb_refl, andb_false_r.
    split; [reflexivity | discriminate].
  - intros Ha Hb Hab.
    exists (Sql.inserted a b started_conversation now d).
    unfold add_open_chat.
    apply String.eqb_neq in Ha, Hb.
    assert (Hba : (b =? a)%string = false)
      by (apply String.eqb_neq; congruence).
    rewrite Ha, Hb, Hba; cbn [negb andb].
    cbn [add_message snd].
    repeat (split; [reflexivity |]).
    apply contacts_In.
    exists (Sql.inserted a b started_conversation now d).
    split; [apply in_or_app; right; left; reflexivity |].
    left; split; reflexivity.
Qed.

Lemma add_open_chat_effect_witness :
  exists m,
    messages (snd (add_open_chat "alice" "bob" "2024-01-01T10:00:00" empty_db))
    = messages empty_db ++ [m]
    /\ sender m = "alice" /\ receiver m = "bob"
    /\ content m = started_conversation
    /\ In "bob" (get_conversations_for_user "alice"
                   (snd (add_open_chat "alice" "bob" "2024-01-01T10:00:00" empty_db))).
Proof.
  apply (add_open_chat_effect "alice" "bob" "2024-01-01T10:00:00" empty_db);
    discriminate.
Defined.

(** C9 as stated fails: starting a chat with oneself raises no
    [ValidationError]; the handler falls through and the script goes on. *)
Lemma add_open_chat_self_no_error :
  add_open_chat "alice" "alice" "2024-01-01T10:00:00" empty_db
    = (Normal PyNone, empty_db)
  /\ fst (add_open_chat "alice" "alice" "2024-01-01T10:00:00" empty_db)
     <> Raised ValidationError.
Proof. split; [reflexivity | discriminate]. Qed.

(* ------------------------------------------------------------------ *)
(** ** The "Delete conversation" handler *)

Section Delete.

Lemma filter_filter_absorb {A : Type} (f g : A -> bool) (l : list A) :
  (forall x, In x l -> f x = true -> g x = true) ->
  filter f (filter g l) = filter f l.
Proof.
  induction l as [| x l IH]; simpl; intros H; [reflexivity |].
  assert (IH' : filter f (filter g l) = filter f l)
    by (apply IH; intros y Hy; apply H; right; exact Hy).
  destruct (f x) eqn:Ef.
  - rewrite (H x (or_introl eq_refl) Ef); simpl; rewrite Ef, IH'; reflexivity.
  - destruct (g x); simpl; [rewrite Ef |]; exact IH'.
Qed.

Lemma between_dec_where a b m :
  (if between_dec a b m then true else false) = Sql.where_between a b b a m.
Proof.
  destruct (between_dec a b m) as [H | H].
  - symmetry; apply where_between_iff, H.
  - symmetry; apply where_between_false, H.
Qed.

Lemma rowcount_count_between a b d :
  fst (Sql.delete_between a b b a d) = count_between a b (messages d).
Proof.
  unfold count_between; simpl; do 2 f_equal.
  apply filter_ext; intros m; symmetry; apply between_dec_where.
Qed.

Lemma delete_between_In a b d m :
  In m (messages (snd (Sql.delete_between a b b a d)))
  <-> In m (messages d) /\ ~ between a b m.
Proof.
  simpl; rewrite filter_In, negb_true_iff, <- where_between_iff.
  destruct (Sql.where_between a b b a m); intuition congruence.
Qed.

(** What the DELETE statement removes: the table splits into the removed
    rows, all of the pair, and the rows left, none of the pair. *)
Lemma delete_between_exact a b d :
  exists removed,
    Permutation (messages d)
                (removed ++ messages (snd (Sql.delete_between a b b a d)))
    /\ Forall (between a b) removed
    /\ Forall (fun m => ~ between a b m)
              (messages (snd (Sql.delete_between a b b a d))).
Proof.
  exists (filter (Sql.where_between a b b a) (messages d)).
  split; [apply filter_split | split].
  - rewrite Forall_forall; intros m Hm.
    apply filter_In in Hm as [_ Hm]; apply where_between_iff, Hm.
  - rewrite Forall_forall; intros m Hm.
    apply delete_between_In in Hm; tauto.
Qed.

Lemma delete_between_nothing a b d :
  (forall m, In m (messages d) -> ~ between a b m) ->
  Sql.delete_between a b b a d = (0, d).
Proof.
  intros Hnone; destruct d as [t n]; unfold Sql.delete_between.
  cbn [messages sqlite_sequence]; f_equal.
  - rewrite filter_nothing; [reflexivity |].
    intros m Hm; apply where_between_false, (Hnone m Hm).
  - f_equal; apply filter_everything; intros m Hm.
    apply negb_true_iff, where_between_false, (Hnone m Hm).
Qed.

(** The loop completes on an empty thread only. *)
Lemma draw_thread_cases username msgs :
  (msgs = [] /\ draw_thread username msgs = Normal PyNone)
  \/ (msgs <> [] /\ draw_thread username msgs = Raised AttributeError).
Proof.
  destruct msgs as [| m rest]; [left; split; reflexivity | right].
  split; [discriminate |].
  cbn [draw_thread]; unfold draw_message.
  destruct (sender m =? username)%string; reflexivity.
Qed.

(** A contact of the list has a thread. *)
Lemma listed_contact_has_thread u c d :
  In c (get_conversations_for_user u d) -> get_messages u c d <> [].
Proof.
  intros Hin E; apply contacts_In in Hin as [m [Hm Ho]].
  assert (H : In m (get_messages u c d))
    by (apply get_messages_In; split; [exact Hm | exact Ho]).
  rewrite E in H; exact H.
Qed.

Lemma delete_conversation_listed a b d :
  a <> "" -> In b (get_conversations_for_user a d) ->
  delete_conversation a b d = (Raised AttributeError, d).
Proof.
  intros Ha Hin; pose proof (listed_contact_has_thread a b d Hin) as Ht.
  apply String.eqb_neq in Ha; unfold delete_conversation; rewrite Ha.
  destruct (get_conversations_for_user a d); [destruct Hin |].
  cbv zeta.
  destruct (draw_thread_cases a (get_messages a b d)) as [[E _] | [_ E]];
    [contradiction | rewrite E; reflexivity].
Qed.

(** Whatever is selected, pressing Delete leaves the store as it was: without
    contacts the handler is skipped, a thread that exists stops the script
    while it is drawn, and for a name without a thread the statement matches
    no row. *)
Lemma delete_conversation_keeps_store a b d :
  snd (delete_conversation a b d) = d.
Proof.
  unfold delete_conversation.
  destruct (a =? "")%string; [reflexivity |].
  destruct (get_conversations_for_user a d); [reflexivity |].
  cbv zeta.
  destruct (draw_thread_cases a (get_messages a b d)) as [[E H] | [_ H]];
    rewrite H; [| reflexivity].
  rewrite delete_between_nothing; [reflexivity |].
  intros m Hm Hb.
  assert (Hin : In m (get_messages a b d))
    by (apply get_messages_In; split; assumption).
  rewrite E in Hin; exact Hin.
Qed.

Lemma delete_conversation_outcome a b d :
  fst (delete_conversation a b d) = Stop
  \/ fst (delete_conversation a b d) = Normal PyNone
  \/ fst (delete_conversation a b d) = Rerun
  \/ fst (delete_conversation a b d) = Raised AttributeError.
Proof.
  unfold delete_conversation.
  destruct (a =? "")%string; [left; reflexivity | right].
  destruct (get_conversations_for_user a d); [left; reflexivity | right].
  cbv zeta.
  destruct (draw_thread_cases a (get_messages a b d)) as [[_ H] | [_ H]];
    rewrite H; [left | right]; reflexivity.
Qed.

End Delete.

(** C7 (what the code does instead).  For a non-empty username [a] and a
    contact [b] of [a]'s contact list, pressing "Delete conversation" raises
    [AttributeError] while the thread is drawn, before the handler is reached:
    the store is left as it was, the thread of [a] and [b] still holds its
    messages and [b] is still among the contacts of [a]. *)
Theorem delete_conversation_raises (d : Db) (a b : string) :
  a <> "" ->
  In b (get_conversations_for_user a d) ->
  delete_conversation a b d = (Raised AttributeError, d)
  /\ get_messages a b (snd (delete_conversation a b d)) = get_messages a b d
  /\ get_messages a b (snd (delete_conversation a b d)) <> []
  /\ In b (get_conversations_for_user a (snd (delete_conversation a b d))).
Proof.
  intros Ha Hin; rewrite (delete_conversation_listed a b d Ha Hin); cbn [snd].
  split; [reflexivity | split; [reflexivity | split]].
  - apply listed_contact_has_thread, Hin.
  - exact Hin.
Qed.

Lemma delete_conversation_raises_witness :
  delete_conversation "alice" "bob" db_alice_bob
    = (Raised AttributeError, db_alice_bob)
  /\ get_messages "alice" "bob"
       (snd (delete_conversation "alice" "bob" db_alice_bob))
     = get_messages "alice" "bob" db_alice_bob
  /\ get_messages "alice" "bob"
       (snd (delete_conversation "alice" "bob" db_alice_bob)) <> []
  /\ In "bob" (get_conversations_for_user "alice"
                 (snd (delete_conversation "alice" "bob" db_alice_bob))).
Proof.
  apply (delete_conversation_raises db_alice_bob "alice" "bob");
    [discriminate | left; reflexivity].
Defined.

(** C8 (amended).  Pressing "Delete conversation" never yields a count: the
    outcome is never an integer.  When [a] has no conversation the handler
    does nothing: the store is unchanged and no error is raised.  The DELETE
    statement of the handler removes exactly the messages of the unordered
    pair of [a] and [b], and its [rowcount], which the handler never reads,
    is the number of messages of the pair: 0, with the store unchanged, when
    none existed. *)
Theorem delete_conversation_no_count (d : Db) (a b : string) :
  (forall n, fst (delete_conversation a b d) <> Normal (PyInt n))
  /\ (get_conversations_for_user a d = [] ->
      snd (delete_conversation a b d) = d
      /\ forall e, fst (delete_conversation a b d) <> Raised e)
  /\ fst (Sql.delete_between a b b a d) = count_between a b (messages d)
  /\ (exists removed,
        Permutation (messages d)
                    (removed ++ messages (snd (Sql.delete_between a b b a d)))
        /\ Forall (between a b) removed
        /\ Forall (fun m => ~ between a b m)
                  (messages (snd (Sql.delete_between a b b a d))))
  /\ ((forall m, In m (messages d) -> ~ between a b m) ->
      count_between a b (messages d) = 0
      /\ Sql.delete_between a b b a d = (0, d)).
Proof.
  split.
  { intros n H; pose proof (delete_conversation_outcome a b d) as Hout.
    rewrite H in Hout; intuition discriminate. }
  split.
  { intros E; unfold delete_conversation.
    destruct (a =? "")%string; [split; [reflexivity | discriminate] |].
    rewrite E; split; [reflexivity | discriminate]. }
  split; [apply rowcount_count_between |].
  split; [apply delete_between_exact |].
  intros Hnone; pose proof (delete_between_nothing a b d Hnone) as Hd.
  split; [| exact Hd].
  rewrite <- rowcount_count_between, Hd; reflexivity.
Qed.

Lemma delete_conversation_no_count_witness :
  snd (delete_conversation "alice" "bob" empty_db) = empty_db
  /\ forall e, fst (delete_conversation "alice" "bob" empty_db) <> Raised e.
Proof.
  destruct (delete_conversation_no_count empty_db "alice" "bob")
    as (_ & H & _).
  apply H; reflexivity.
Defined.

(** C8 as stated fails: alice has no conversation, no message of alice and bob
    exists, and pressing "Delete conversation" falls through with [None]; it
    does not return 0. *)
Lemma delete_conversation_returns_no_count :
  count_between "alice" "bob" (messages empty_db) = 0
  /\ delete_conversation "alice" "bob" empty_db = (Normal PyNone, empty_db)
  /\ fst (delete_conversation "alice" "bob" empty_db) <> Normal (PyInt 0).
Proof. split; [reflexivity | split; [reflexivity | discriminate]]. Qed.

(* ------------------------------------------------------------------ *)
(** ** Keys: what AUTOINCREMENT guarantees along a history *)

Section Keys.

Lemma StronglySorted_snoc {A : Type} (R : A -> A -> Prop) (l : list A) (x : A) :
  StronglySorted R l -> Forall (fun y => R y x) l -> StronglySorted R (l ++ [x]).
Proof.
  induction l as [| a l IH]; simpl; intros Hs Hx.
  - repeat constructor.
  - apply StronglySorted_inv in Hs as [Hs Ha].
    inversion Hx as [| ? ? Hax Hlx]; subst.
    constructor; [apply IH; assumption |].
    apply Forall_app; split; [assumption | repeat constructor; assumption].
Qed.

Lemma StronglySorted_filter {A : Type} (R : A -> A -> Prop) (f : A -> bool)
  (l : list A) :
  StronglySorted R l -> StronglySorted R (filter f l).
Proof.
  induction 1 as [| a l Hs IH Ha]; simpl; [constructor |].
  destruct (f a); [| exact IH].
  constructor; [exact IH |].
  rewrite Forall_forall in *; intros y Hy.
  apply filter_In in Hy as [Hy _]; auto.
Qed.

Lemma max_rowid_bounded (t : list Row) (n : Z) :
  0 <= n -> Forall (fun r => 1 <= id r <= n) t -> Sql.max_rowid t <= n.
Proof.
  intros Hn; induction 1 as [| r t Hr Ht IH]; simpl; lia.
Qed.

Lemma well_keyed_next_rowid (d : Db) :
  well_keyed d -> Sql.next_rowid d = sqlite_sequence d + 1.
Proof.
  intros (Hn & _ & Hb); unfold Sql.next_rowid.
  pose proof (max_rowid_bounded _ _ Hn Hb); lia.
Qed.

Lemma well_keyed_insert p1 p2 p3 p4 (d : Db) :
  well_keyed d -> well_keyed (Sql.insert p1 p2 p3 p4 d).
Proof.
  intros Hw; pose proof (well_keyed_next_rowid d Hw) as Hnext.
  destruct Hw as (Hn & Hs & Hb).
  unfold well_keyed, Sql.insert, Sql.inserted; cbn [messages sqlite_sequence id].
  rewrite Hnext; split; [lia | split].
  - apply StronglySorted_snoc; [exact Hs |].
    eapply Forall_impl; [| exact Hb].
    intros r Hr; unfold id_lt; cbn [id]; cbv beta in Hr; lia.
  - apply Forall_app; split.
    + eapply Forall_impl; [| exact Hb]; intros r Hr; cbv beta in *; lia.
    + repeat constructor; cbn [id]; lia.
Qed.

Lemma well_keyed_delete p1 p2 p3 p4 (d : Db) :
  well_keyed d -> well_keyed (snd (Sql.delete_between p1 p2 p3 p4 d)).
Proof.
  intros (Hn & Hs & Hb); unfold well_keyed; cbn [Sql.delete_between snd messages sqlite_sequence].
  split; [exact Hn | split].
  - apply StronglySorted_filter, Hs.
  - rewrite Forall_forall in *; intros r Hr.
    apply filter_In in Hr as [Hr _]; auto.
Qed.

Lemma well_keyed_step (d : Db) (w : write) :
  well_keyed d -> well_keyed (step d w).
Proof.
  destruct w; [apply well_keyed_insert | apply well_keyed_delete].
Qed.

Lemma well_keyed_run (h : list write) (d : Db) :
  well_keyed d -> well_keyed (run d h).
Proof.
  revert d; induction h as [| w h IH]; intros d Hw; [exact Hw |].
  change (run d (w :: h)) with (run (step d w) h).
  apply IH, well_keyed_step, Hw.
Qed.

Lemma well_keyed_fresh : well_keyed (init_db None).
Proof. repeat split; [simpl; lia | constructor | constructor]. Qed.

Lemma strictly_sorted_ids_NoDup (l : list Row) :
  StronglySorted id_lt l -> NoDup (map id l).
Proof.
  induction 1 as [| a l Hs IH Ha]; simpl; constructor; [| exact IH].
  rewrite in_map_iff; intros [r [E Hr]].
  rewrite Forall_forall in Ha; specialize (Ha r Hr); unfold id_lt in Ha; lia.
Qed.

(** A list sorted by id has one arrangement only when its ids are distinct. *)
Lemma sorted_by_id_unique (l l' : list Row) :
  StronglySorted id_lt l -> StronglySorted id_le l' -> Permutation l l' ->
  l = l'.
Proof.
  intros Hs; revert l'; induction Hs as [| a t Hs IH Ha]; intros l' Hs' Hp.
  - apply Permutation_nil in Hp; subst; reflexivity.
  - destruct l' as [| a' t'];
      [apply Permutation_sym, Permutation_nil in Hp; discriminate |].
    apply StronglySorted_inv in Hs' as [Hs' Ha'].
    rewrite Forall_forall in Ha, Ha'.
    assert (E : a = a').
    { assert (H1 : In a (a' :: t'))
        by (eapply Permutation_in; [exact Hp | left; reflexivity]).
      assert (H2 : In a' (a :: t))
        by (eapply Permutation_in;
            [apply Permutation_sym, Hp | left; reflexivity]).
      destruct H1 as [H1 | H1]; [symmetry; exact H1 |].
      destruct H2 as [H2 | H2]; [exact H2 |].
      specialize (Ha a' H2); specialize (Ha' a H1).
      unfold id_lt in Ha; unfold id_le in Ha'; lia. }
    subst a'; f_equal.
    apply IH; [exact Hs' | eapply Permutation_cons_inv; exact Hp].
Qed.

(** On a well-keyed table [ORDER BY id ASC] changes nothing. *)
Lemma get_messages_filter (a b : string) (d : Db) :
  well_keyed d ->
  get_messages a b d = filter (Sql.where_between a b b a) (messages d).
Proof.
  intros (_ & Hs & _); symmetry.
  apply sorted_by_id_unique.
  - apply StronglySorted_filter, Hs.
  - apply get_messages_sorted.
  - apply get_messages_Permutation.
Qed.

Lemma appended_ids_from (h : list write) (d : Db) :
  well_keyed d ->
  map id (appended d h)
  = map (fun k => sqlite_sequence d + Z.of_nat k)
        (seq 1 (List.length (appended d h))).
Proof.
  revert d; induction h as [| w h IH]; intros d Hw; [reflexivity |].
  pose proof (well_keyed_step d w Hw) as Hw'.
  destruct w as [s r c now | a b]; cbn [appended].
  - cbn [map List.length seq]; f_equal.
    + cbn [Sql.inserted id]; rewrite (well_keyed_next_rowid d Hw); lia.
    + rewrite (IH _ Hw'), <- (seq_shift _ 1), map_map.
      apply map_ext; intros k.
      cbn [step add_message snd Sql.insert sqlite_sequence Sql.inserted id].
      rewrite (well_keyed_next_rowid d Hw); lia.
  - rewrite (IH _ Hw'); reflexivity.
Qed.

End Keys.

(** X1.  After any history of appends and conversation deletes on a fresh
    database the table is well keyed: rows are stored in strictly ascending
    order of id, every id lies between 1 and the AUTOINCREMENT counter, and no
    two rows share an id. *)
Theorem history_well_keyed (h : list write) :
  well_keyed (run (init_db None) h)
  /\ NoDup (map id (messages (run (init_db None) h))).
Proof.
  assert (Hw : well_keyed (run (init_db None) h))
    by apply well_keyed_run, well_keyed_fresh.
  split; [exact Hw |].
  apply strictly_sorted_ids_NoDup, Hw.
Qed.

(** X2.  On a fresh database the messages appended by a history get the ids
    1, 2, 3, ... in the order of the calls, whatever was deleted in between:
    an id is never given twice. *)
Theorem appended_ids_consecutive (h : list write) :
  map id (appended (init_db None) h)
  = map Z.of_nat (seq 1 (List.length (appended (init_db None) h))).
Proof.
  rewrite (appended_ids_from h _ well_keyed_fresh).
  apply map_ext; intros k; simpl; lia.
Qed.

(** X3.  After any history on a fresh database, [get_messages a b] is the
    table filtered by the WHERE clause, in storage order: the thread lists the
    messages of the pair in the order they were appended. *)
Theorem thread_in_append_order (h : list write) (a b : string) :
  get_messages a b (run (init_db None) h)
  = filter (Sql.where_between a b b a) (messages (run (init_db None) h)).
Proof.
  apply get_messages_filter, well_keyed_run, well_keyed_fresh.
Qed.

(** X4.  After any history on a fresh database, [add_message s r c] extends
    the thread of [s] and [r] by exactly one element at its end, the new
    message with the next id, and leaves the messages before it as they
    were. *)
Theorem add_message_extends_thread (h : list write) (s r c now : string) :
  get_messages s r (snd (add_message s r c now (run (init_db None) h)))
  = get_messages s r (run (init_db None) h)
    ++ [mkRow (sqlite_sequence (run (init_db None) h) + 1) s r c now].
Proof.
  assert (Hw : well_keyed (run (init_db None) h))
    by apply well_keyed_run, well_keyed_fresh.
  rewrite (get_messages_filter s r _ Hw).
  rewrite get_messages_filter by apply well_keyed_insert, Hw.
  cbn [add_message snd Sql.insert messages].
  rewrite filter_app; cbn [filter].
  rewrite where_between_inserted.
  unfold Sql.inserted; rewrite (well_keyed_next_rowid _ Hw); reflexivity.
Qed.

(* ------------------------------------------------------------------ *)
(** ** How the queries and the writes compose *)

Section Composition.

Lemma between_sym a b m : between a b m <-> between b a m.
Proof. unfold between; tauto. Qed.

Lemma other_party_between u c m : other_party u c m <-> between u c m.
Proof. unfold other_party, between; tauto. Qed.

Lemma where_between_swap a b m :
  Sql.where_between a b b a m = Sql.where_between b a a b m.
Proof. unfold Sql.where_between; apply orb_comm. Qed.

Lemma thread_nonempty_iff a b d :
  get_messages a b d <> [] <-> exists m, In m (messages d) /\ between a b m.
Proof.
  split.
  - destruct (get_messages a b d) as [| m t] eqn:E; [congruence |].
    intros _; exists m; apply get_messages_In; rewrite E; left; reflexivity.
  - intros [m Hm] E; apply get_messages_In in Hm; rewrite E in Hm; exact Hm.
Qed.

End Composition.

(** X5.  For every store state, [add_message s r c] leaves the thread of every
    other unordered pair as it was. *)
Theorem add_message_other_threads (d : Db) (s r c now x y : string) :
  ~ ((x = s /\ y = r) \/ (x = r /\ y = s)) ->
  get_messages x y (snd (add_message s r c now d)) = get_messages x y d.
Proof.
  intros Hxy; unfold get_messages, Sql.select_between; f_equal.
  cbn [add_message snd Sql.insert messages].
  rewrite filter_app; cbn [filter].
  rewrite where_between_false; [apply app_nil_r |].
  unfold between, Sql.inserted; cbn [sender receiver].
  intros [[<- <-] | [<- <-]]; tauto.
Qed.

Lemma add_message_other_threads_witness :
  get_messages "alice" "carol"
    (snd (add_message "alice" "bob" "hi" "2024-01-01T10:00:00" db_alice_bob))
  = get_messages "alice" "carol" db_alice_bob.
Proof.
  apply (add_message_other_threads db_alice_bob "alice" "bob" "hi"
           "2024-01-01T10:00:00" "alice" "carol").
  intros [[_ H] | [H _]]; discriminate H.
Defined.

(** X6.  For every store state and user [u], after [add_message s r c] the
    contacts of [u] are those [u] had before, with [r] added when [u] is the
    sender and [s] added when [u] is the receiver; nobody else's contacts
    change. *)
Theorem add_message_contacts (d : Db) (s r c now u x : string) :
  In x (get_conversations_for_user u (snd (add_message s r c now d)))
  <-> In x (get_conversations_for_user u d)
      \/ (u = s /\ x = r) \/ (u = r /\ x = s).
Proof.
  rewrite !contacts_In; cbn [add_message snd Sql.insert messages].
  split.
  - intros [m [Hm Ho]]; apply in_app_or in Hm as [Hm | [<- | []]].
    + left; exists m; split; assumption.
    + right; unfold other_party, Sql.inserted in Ho; cbn [sender receiver] in Ho.
      destruct Ho as [[<- <-] | [<- <-]]; tauto.
  - intros [[m [Hm Ho]] | Hnew].
    + exists m; split; [apply in_or_app; left; exact Hm | exact Ho].
    + exists (Sql.inserted s r c now d); split;
        [apply in_or_app; right; left; reflexivity |].
      unfold other_party, Sql.inserted; cbn [sender receiver].
      destruct Hnew as [[-> ->] | [-> ->]]; tauto.
Qed.

(** X7.  For every store state and users [a], [b]: [b] is among the contacts
    of [a] exactly when the thread of [a] and [b] is not empty, and exactly
    when [a] is among the contacts of [b]. *)
Theorem contact_iff_thread (d : Db) (a b : string) :
  (In b (get_conversations_for_user a d) <-> get_messages a b d <> [])
  /\ (In b (get_conversations_for_user a d)
      <-> In a (get_conversations_for_user b d)).
Proof.
  rewrite thread_nonempty_iff, !contacts_In.
  split; split; intros [m [Hm Ho]]; exists m; split; try exact Hm;
    unfold other_party, between in *; tauto.
Qed.

(** X8.  The DELETE statement of the handler (lines 166-169), run on any
    store with the parameters [(a, b, b, a)]: afterwards the thread of [a] and
    [b] is empty from either side, running the statement again removes 0 rows
    and changes nothing, and the parameters [(b, a, a, b)] give the same
    store. *)
Theorem delete_statement_idempotent (d : Db) (a b : string) :
  let d' := snd (Sql.delete_between a b b a d) in
  get_messages a b d' = []
  /\ get_messages b a d' = []
  /\ Sql.delete_between a b b a d' = (0, d')
  /\ snd (Sql.delete_between b a a b d) = d'.
Proof.
  intros d'.
  assert (Hnone : forall m, In m (messages d') -> ~ between a b m).
  { subst d'; intros m Hm; apply delete_between_In in Hm; tauto. }
  assert (Hempty : get_messages a b d' = []).
  { destruct (get_messages a b d') as [| m t] eqn:E; [reflexivity |].
    exfalso; apply (Hnone m); apply (get_messages_In a b d' m);
      rewrite E; left; reflexivity. }
  split; [exact Hempty |].
  split.
  { unfold get_messages, Sql.select_between in *.
    rewrite (filter_ext _ _ (where_between_swap b a)); exact Hempty. }
  split; [apply delete_between_nothing, Hnone |].
  subst d'; unfold Sql.delete_between; cbn [snd]; f_equal.
  apply filter_ext; intros m; f_equal; apply where_between_swap.
Qed.

(* ------------------------------------------------------------------ *)
(** ** What the page writes *)

Section PageFacts.

Variable strip : string -> string.

Lemma clean_insert s r c now d :
  clean d -> s <> "" -> r <> "" -> c <> "" -> s <> r ->
  clean (Sql.insert s r c now d).
Proof.
  intros Hc Hs Hr Hco Hsr; unfold clean, Sql.insert; cbn [messages].
  apply Forall_app; split; [exact Hc |].
  repeat constructor; assumption.
Qed.

Lemma clean_delete p1 p2 p3 p4 d :
  clean d -> clean (snd (Sql.delete_between p1 p2 p3 p4 d)).
Proof.
  unfold clean; cbn [Sql.delete_between snd messages].
  rewrite !Forall_forall; intros H r Hr.
  apply filter_In in Hr as [Hr _]; auto.
Qed.

(** In a clean store a contact is a non-empty name other than the user's. *)
Lemma clean_contact u c d :
  clean d -> In c (get_conversations_for_user u d) -> c <> "" /\ c <> u.
Proof.
  unfold clean; rewrite Forall_forall; intros Hc Hin.
  apply contacts_In in Hin as [m [Hm Ho]].
  destruct (Hc m Hm) as (Hs & Hr & _ & Hsr).
  destruct Ho as [[<- <-] | [<- <-]]; split; congruence.
Qed.

Lemma clean_add_open_chat username new_contact now d :
  clean d -> clean (snd (add_open_chat username new_contact now d)).
Proof.
  intros Hc; unfold add_open_chat.
  destruct (String.eqb_spec username ""); [exact Hc |].
  destruct (String.eqb_spec new_contact ""); [exact Hc |].
  destruct (String.eqb_spec new_contact username); [exact Hc |].
  cbn [negb andb add_message snd].
  apply clean_insert; try assumption; [discriminate | congruence].
Qed.

(** With a contact of the list selected, the script stops while the thread
    is drawn; the form is not reached. *)
Lemma send_form_listed username contact msg send now d :
  username <> "" -> In contact (get_conversations_for_user username d) ->
  send_form strip username contact msg send now d = (Raised AttributeError, d).
Proof.
  intros Hu Hin; pose proof (listed_contact_has_thread _ _ _ Hin) as Ht.
  apply String.eqb_neq in Hu; unfold send_form; rewrite Hu.
  destruct (get_conversations_for_user username d); [destruct Hin |].
  cbv zeta.
  destruct (draw_thread_cases username (get_messages username contact d))
    as [[E _] | [_ E]]; [contradiction | rewrite E; reflexivity].
Qed.

Lemma send_form_listed_keeps_store username contact msg send now d :
  In contact (get_conversations_for_user username d) ->
  snd (send_form strip username contact msg send now d) = d.
Proof.
  intros Hin; destruct (String.eqb_spec username "") as [E | E].
  - unfold send_form; rewrite E; reflexivity.
  - rewrite send_form_listed by assumption; reflexivity.
Qed.

Lemma clean_send_form username contact msg send now d :
  clean d -> In contact (get_conversations_for_user username d) ->
  clean (snd (send_form strip username contact msg send now d)).
Proof.
  intros Hc Hin; rewrite send_form_listed_keeps_store by exact Hin; exact Hc.
Qed.

Lemma clean_delete_conversation username contact d :
  clean d -> clean (snd (delete_conversation username contact d)).
Proof.
  intros Hc; rewrite delete_conversation_keeps_store; exact Hc.
Qed.

Lemma page_reachable_clean d : page_reachable strip d -> clean d.
Proof.
  induction 1 as [| u c now d _ IH | u c msg send now d _ IH Hin | u c d _ IH].
  - constructor.
  - apply clean_add_open_chat, IH.
  - apply clean_send_form; assumption.
  - apply clean_delete_conversation, IH.
Qed.

(** "Add / Open chat" leaves the store alone or appends one marker. *)
Lemma add_open_chat_cases username new_contact now d :
  snd (add_open_chat username new_contact now d) = d
  \/ snd (add_open_chat username new_contact now d)
     = Sql.insert username new_contact started_conversation now d.
Proof.
  unfold add_open_chat.
  destruct (username =? "")%string; [left; reflexivity |].
  destruct (negb (new_contact =? "")%string
            && negb (new_contact =? username)%string);
    [right | left]; reflexivity.
Qed.

Lemma page_reachable_markers d :
  page_reachable strip d ->
  Forall (fun r => content r = started_conversation) (messages d).
Proof.
  induction 1 as [| u c now d _ IH | u c msg send now d _ IH Hin | u c d _ IH].
  - constructor.
  - destruct (add_open_chat_cases u c now d) as [-> | ->]; [exact IH |].
    unfold Sql.insert; cbn [messages].
    apply Forall_app; split; [exact IH | repeat constructor].
  - rewrite send_form_listed_keeps_store by exact Hin; exact IH.
  - rewrite delete_conversation_keeps_store; exact IH.
Qed.

End PageFacts.

(** X9.  Whatever [str.strip] computes and whatever is typed or submitted, for
    a non-empty username and a contact taken from the user's contact list the
    script raises [AttributeError] while it draws the thread, before the
    message form is reached: no message is written and the thread reads as
    before. *)
Theorem send_form_raises (strip : string -> string)
  (username contact msg : string) (send : bool) (now : string) (d : Db) :
  username <> "" ->
  In contact (get_conversations_for_user username d) ->
  send_form strip username contact msg send now d = (Raised AttributeError, d)
  /\ get_messages username contact
       (snd (send_form strip username contact msg send now d))
     = get_messages username contact d.
Proof.
  intros Hu Hin; rewrite (send_form_listed strip _ _ msg send now d Hu Hin).
  split; reflexivity.
Qed.

Lemma send_form_raises_witness :
  send_form (fun s => s) "alice" "bob" "hello" true "2024-01-01T10:01:00"
            db_alice_bob
    = (Raised AttributeError, db_alice_bob)
  /\ get_messages "alice" "bob"
       (snd (send_form (fun s => s) "alice" "bob" "hello" true
               "2024-01-01T10:01:00" db_alice_bob))
     = get_messages "alice" "bob" db_alice_bob.
Proof.
  apply (send_form_raises (fun s => s) "alice" "bob" "hello" true
           "2024-01-01T10:01:00" db_alice_bob);
    [discriminate | left; reflexivity].
Defined.

(** X10.  In every store the page can produce from a fresh database, whatever
    [str.strip] computes, no message has an empty sender, receiver or content
    and nobody has written to themselves; so no contact list holds the empty
    name or its own user. *)
Theorem page_never_writes_invalid (strip : string -> string) (d : Db) :
  page_reachable strip d ->
  clean d
  /\ (forall u, ~ In u (get_conversations_for_user u d))
  /\ (forall u, ~ In "" (get_conversations_for_user u d)).
Proof.
  intros Hr; pose proof (page_reachable_clean strip d Hr) as Hc.
  split; [exact Hc |].
  split; intros u Hin; destruct (clean_contact _ _ _ Hc Hin); congruence.
Qed.

Lemma page_never_writes_invalid_witness :
  clean (snd (send_form (fun s => s) "alice" "bob" "hello" true
                "2024-01-01T10:00:05"
                (snd (add_open_chat "alice" "bob" "2024-01-01T10:00:00"
                        (init_db None))))).
Proof.
  apply (page_never_writes_invalid (fun s => s)).
  apply reach_send_form;
    [apply reach_add_open_chat, reach_fresh | left; reflexivity].
Defined.

(** X11.  In every store the page can produce from a fresh database, whatever
    [str.strip] computes, every message is a conversation-start marker: the
    only write the page completes is the one of "Add / Open chat", since the
    message form and the delete handler lie behind the loop that draws the
    thread. *)
Theorem page_only_writes_markers (strip : string -> string) (d : Db) :
  page_reachable strip d ->
  Forall (fun r => content r = started_conversation) (messages d).
Proof. apply page_reachable_markers. Qed.

Lemma page_only_writes_markers_witness :
  Forall (fun r => content r = started_conversation)
    (messages
       (snd (send_form (fun s => s) "alice" "bob" "hello" true
               "2024-01-01T10:00:05"
               (snd (add_open_chat "alice" "bob" "2024-01-01T10:00:00"
                       (init_db None)))))).
Proof.
  apply (page_only_writes_markers (fun s => s)).
  apply reach_send_form;
    [apply reach_add_open_chat, reach_fresh | left; reflexivity].
Defined.

(** X12.  "Add / Open chat" does not look at the messages that exist: for
    non-empty [a] and [b] with [a <> b], pressing it twice appends two marker
    messages to the thread of [a] and [b], also when the two already have a
    conversation. *)
Theorem add_open_chat_twice (d : Db) (a b now1 now2 : string) :
  a <> "" -> b <> "" -> a <> b ->
  exists m1 m2,
    messages (snd (add_open_chat a b now2 (snd (add_open_chat a b now1 d))))
    = messages d ++ [m1; m2]
    /\ content m1 = started_conversation /\ content m2 = started_conversation
    /\ sender m1 = a /\ receiver m1 = b /\ sender m2 = a /\ receiver m2 = b
    /\ id m1 < id m2.
Proof.
  intros Ha Hb Hab.
  assert (Hstep : forall now d0,
             snd (add_open_chat a b now d0)
             = Sql.insert a b started_conversation now d0).
  { intros now d0; unfold add_open_chat.
    apply String.eqb_neq in Ha, Hb.
    assert (Hba : (b =? a)%string = false)
      by (apply String.eqb_neq; congruence).
    rewrite Ha, Hb, Hba; reflexivity. }
  rewrite !Hstep.
  exists (Sql.inserted a b started_conversation now1 d),
         (Sql.inserted a b started_conversation now2
            (Sql.insert a b started_conversation now1 d)).
  split; [cbn [Sql.insert messages]; rewrite <- app_assoc; reflexivity |].
  repeat (split; [reflexivity |]).
  apply next_rowid_fresh; cbn [Sql.insert messages].
  apply in_or_app; right; left; reflexivity.
Qed.

Lemma add_open_chat_twice_witness :
  exists m1 m2,
    messages (snd (add_open_chat "alice" "bob" "2024-01-01T10:02:00"
                     (snd (add_open_chat "alice" "bob" "2024-01-01T10:01:00"
                             db_alice_bob))))
    = messages db_alice_bob ++ [m1; m2]
    /\ content m1 = started_conversation /\ content m2 = started_conversation
    /\ sender m1 = "alice" /\ receiver m1 = "bob"
    /\ sender m2 = "alice" /\ receiver m2 = "bob"
    /\ id m1 < id m2.
Proof.
  apply (add_open_chat_twice db_alice_bob "alice" "bob"); discriminate.
Defined.

(* ------------------------------------------------------------------ *)
(** ** The contact list does not depend on the order of the rows *)

Section ContactOrder.

Lemma str_lt_irrefl x : ~ str_lt x x.
Proof.
  unfold str_lt, String.ltb; intros H.
  assert (E : String.compare x x = Eq) by (apply String_as_OT.cmp_eq; reflexivity).
  rewrite E in H; discriminate.
Qed.

Lemma str_lt_asym x y : str_lt x y -> str_lt y x -> False.
Proof.
  unfold str_lt, String.ltb; intros H1 H2.
  rewrite String.compare_antisym in H2.
  destruct (String.compare x y); discriminate.
Qed.

(** A strictly ascending list of strings is determined by its elements. *)
Lemma sorted_strings_unique (l l' : list string) :
  StronglySorted str_lt l -> StronglySorted str_lt l' ->
  (forall x, In x l <-> In x l') -> l = l'.
Proof.
  intros Hs; revert l'; induction Hs as [| a t Hs IH Ha]; intros l' Hs' Hio.
  - destruct l' as [| a' t']; [reflexivity |].
    destruct (proj2 (Hio a') (or_introl eq_refl)).
  - destruct l' as [| a' t'];
      [destruct (proj1 (Hio a) (or_introl eq_refl)) |].
    apply StronglySorted_inv in Hs' as [Hs' Ha'].
    rewrite Forall_forall in Ha, Ha'.
    assert (E : a = a').
    { destruct (proj1 (Hio a) (or_introl eq_refl)) as [H1 | H1];
        [symmetry; exact H1 |].
      destruct (proj2 (Hio a') (or_introl eq_refl)) as [H2 | H2]; [exact H2 |].
      destruct (str_lt_asym a a' (Ha a' H2) (Ha' a H1)). }
    subst a'; f_equal; apply IH; [exact Hs' |].
    intros x; split; intros Hx.
    + destruct (proj1 (Hio x) (or_intror Hx)) as [<- | H]; [| exact H].
      destruct (str_lt_irrefl a (Ha a Hx)).
    + destruct (proj2 (Hio x) (or_intror Hx)) as [<- | H]; [| exact H].
      destruct (str_lt_irrefl a (Ha' a Hx)).
Qed.

Lemma contacts_strictly_sorted u d :
  StronglySorted str_lt (get_conversations_for_user u d).
Proof.
  apply StronglySorted_strict with (R := fun a b => is_true (StrOrder.leb a b)).
  - intros x y; apply str_leb_neq_ltb.
  - apply StrSort.StronglySorted_sort, str_leb_trans.
  - apply contacts_NoDup.
Qed.

End ContactOrder.

(** X13.  [get_conversations_for_user] depends only on which rows the table
    holds, not on the order in which SQLite scans them: two stores whose tables
    hold the same rows in any order give every user the same contact list. *)
Theorem contacts_order_independent (d1 d2 : Db) (u : string) :
  Permutation (messages d1) (messages d2) ->
  get_conversations_for_user u d1 = get_conversations_for_user u d2.
Proof.
  intros Hp; apply sorted_strings_unique; try apply contacts_strictly_sorted.
  intros x; rewrite !contacts_In.
  split; intros [m [Hm Ho]]; exists m; split; try exact Ho;
    eapply Permutation_in; try exact Hm;
    [exact Hp | apply Permutation_sym, Hp].
Qed.

Lemma contacts_order_independent_witness :
  get_conversations_for_user "alice" db_alice_bob
  = get_conversations_for_user "alice"
      (mkDb (rev (messages db_alice_bob)) (sqlite_sequence db_alice_bob)).
Proof.
  apply (contacts_order_independent db_alice_bob
           (mkDb (rev (messages db_alice_bob)) (sqlite_sequence db_alice_bob))
           "alice").
  apply Permutation_rev.
Defined.
